(** * Beginner_AI_Agent_Notebook: the weather tool, the Tool wrapper and the Agent

    A shallow embedding of the three code cells of
    [Beginner_AI_Agent_Notebook.ipynb] ([get_weather], [class Tool],
    [class Agent]) together with the part of Python's [str] and [dict]
    behaviour those cells rely on.

    - A Python [str] is a sequence of Unicode code points: [list N].
    - A [dict] with string keys is a [gmap pystr _].
    - A call either returns a value or raises: [result].
    - [print] appends its argument to the list of printed messages; the
      methods of [Agent] are written in a small state-and-error monad over
      the agent's registry and that list. *)

From Stdlib Require Import NArith ZArith Ascii String List Bool Lia.
From stdpp Require Import base option list gmap pretty.

Local Open Scope N_scope.

(** ** Python strings *)

Module PyStr.

(** A string is the list of its code points. *)
Definition pystr : Type := list N.

(** An ASCII literal of the source as a list of code points. *)
Definition lit (s : string) : pystr :=
  map N_of_ascii (list_ascii_of_string s).

(** [Py_UNICODE_ISSPACE]: the characters that [str.strip()] removes when
    it is called without argument. *)
Definition isspace (c : N) : bool :=
  ((9 <=? c) && (c <=? 13)) || ((28 <=? c) && (c <=? 32))
  || (c =? 133) || (c =? 160) || (c =? 5760)
  || ((8192 <=? c) && (c <=? 8202))
  || (c =? 8232) || (c =? 8233) || (c =? 8239) || (c =? 8287)
  || (c =? 12288).

(** Membership of a character in the argument of [str.strip(chars)]. *)
Definition char_in (chars : pystr) (c : N) : bool :=
  existsb (N.eqb c) chars.

Fixpoint lstrip (p : N -> bool) (s : pystr) : pystr :=
  match s with
  | [] => []
  | c :: s' => if p c then lstrip p s' else s
  end.

Definition rstrip (p : N -> bool) (s : pystr) : pystr :=
  rev (lstrip p (rev s)).

(** [s.strip()] is [strip isspace s]; [s.strip(chars)] is
    [strip (char_in chars) s]. *)
Definition strip (p : N -> bool) (s : pystr) : pystr :=
  rstrip p (lstrip p s).

(** [s.startswith(p)]. *)
Fixpoint startswith (p s : pystr) : bool :=
  match p, s with
  | [], _ => true
  | _ :: _, [] => false
  | a :: p', b :: s' => (a =? b) && startswith p' s'
  end.

(** [s.endswith(p)]. *)
Definition endswith (p s : pystr) : bool :=
  startswith (rev p) (rev s).

(** [s.find(sep)]: the lowest index at which [sep] occurs, [None] for
    Python's [-1]. *)
Fixpoint find (sep s : pystr) : option nat :=
  if startswith sep s then Some 0%nat
  else match s with
       | [] => None
       | _ :: s' => S <$> find sep s'
       end.

(** [s.rfind(sep)]: the highest index at which [sep] occurs. *)
Fixpoint rfind (sep s : pystr) : option nat :=
  match s with
  | [] => if startswith sep s then Some 0%nat else None
  | _ :: s' =>
      match rfind sep s' with
      | Some i => Some (S i)
      | None => if startswith sep s then Some 0%nat else None
      end
  end.

(** [sep in s]. *)
Definition contains (sep s : pystr) : bool :=
  bool_decide (is_Some (find sep s)).

(** [s.split(sep, maxsplit)] for a non-empty [sep], as CPython's loop
    runs it: while splits remain, find the next occurrence from the
    current position, cut the piece before it and resume after the
    separator; what is left is the last piece. *)
Fixpoint split_max (maxsplit : nat) (sep s : pystr) : list pystr :=
  match maxsplit with
  | O => [s]
  | S m =>
      match find sep s with
      | None => [s]
      | Some i => take i s :: split_max m sep (drop (i + length sep) s)
      end
  end.

(** [s.split(sep)]: no bound on the number of splits.  A string of
    length [n] holds at most [n] occurrences of a non-empty separator,
    so [length s] rounds never stop the loop early
    (see [split_max_enough]). *)
Definition split (sep s : pystr) : list pystr :=
  split_max (length s) sep s.

(** [sep] occurs in [s]. *)
Definition occurs (sep s : pystr) : Prop :=
  exists a b, s = a ++ sep ++ b.

(** A string has a character outside the stripped class. *)
Definition has_other (p : N -> bool) (s : pystr) : bool :=
  existsb (fun c => negb (p c)) s.

End PyStr.
Import PyStr.

(** ** Results of calls *)

Inductive exn : Type :=
| TypeError
| AttributeError
| IndexError
| RuntimeError (code : N).

Inductive result (A : Type) : Type :=
| Ok (a : A)
| Raise (e : exn).
Arguments Ok {A} a.
Arguments Raise {A} e.

(** [l[-1]]: the last element, [IndexError] on an empty list. *)
Definition index_last {A} (l : list A) : result A :=
  match last l with
  | Some x => Ok x
  | None => Raise IndexError
  end.

(** ** Agent.run, line 118: the location taken from the input *)

(** The literal [" in "]. *)
Definition sep_in : pystr := Eval cbv in lit " in ".

(** The literal [" ?."]. *)
Definition strip_set : pystr := Eval cbv in lit " ?.".

(** The literal [" in"], the separator without its closing space. *)
Definition sep_open : pystr := Eval cbv in lit " in".

(** The literal ["in "], the separator without its opening space. *)
Definition sep_close : pystr := Eval cbv in lit "in ".

(** [user_input.strip().split(" in ")[-1].strip(" ?.")] *)
Definition extract_location (user_input : pystr) : result pystr :=
  match index_last (split sep_in (strip isspace user_input)) with
  | Ok seg => Ok (strip (char_in strip_set) seg)
  | Raise e => Raise e
  end.

(** ** Values and callables *)

(** The objects that flow through the notebook ([Any] in its annotations):
    strings, and [None], booleans and integers as what a registered
    function may also be given or return. *)
Inductive Value : Type :=
| VNone
| VBool (b : bool)
| VInt (z : Z)
| VStr (s : pystr).

(** [format(v, "")], what a replacement field [{v}] of an f-string
    renders. *)
Definition py_format (v : Value) : pystr :=
  match v with
  | VNone => lit "None"
  | VBool true => lit "True"
  | VBool false => lit "False"
  | VInt z => lit (pretty z)
  | VStr s => s
  end.

(** Keyword arguments: a dictionary with string keys. *)
Abbreviation kwargs := (gmap pystr Value).

(** A callable object as [register_tool] and [Tool.run] use it: its
    [__name__] ([None] when the object has no such attribute, as for a
    [functools.partial]), its [__doc__] ([None] is Python's [None]) and
    what a call with keyword arguments returns or raises.  A call is its
    outcome: like [get_weather], the functions considered neither print
    nor touch the agent. *)
Record PyFunc : Type := {
  fn_name : option pystr;
  fn_doc : option pystr;
  fn_call : kwargs -> result Value
}.

(** [x or <empty string>] for [x] a string or [None]: the empty string and [None] are
    both falsy. *)
Definition or_empty (x : option pystr) : pystr :=
  match x with
  | Some (c :: s) => c :: s
  | _ => []
  end.

(** ** Cell 1: get_weather *)

Definition degree : pystr := [176].

(** The three descriptions of the table. *)
Definition partly_cloudy : pystr :=
  lit "Partly cloudy, 15" ++ degree ++ lit "C, 60% humidity".
Definition sunny : pystr :=
  lit "Sunny, 28" ++ degree ++ lit "C, 40% humidity".
Definition rainy : pystr :=
  lit "Rainy, 12" ++ degree ++ lit "C, 85% humidity".

(** The dictionary literal [simulated_weather]. *)
Definition simulated_weather : gmap pystr pystr :=
  {[ lit "New York" := partly_cloudy;
     lit "Tokyo" := sunny;
     lit "Berlin" := rainy ]}.

Definition not_available : pystr := lit "Weather data not available.".

(** [simulated_weather.get(location, "Weather data not available.")] *)
Definition get_weather (location : pystr) : pystr :=
  default not_available (simulated_weather !! location).

(** The function object [get_weather]: one parameter, [location].  A call
    that does not bind exactly that parameter raises [TypeError]; an
    argument that is not a string is a key the table does not hold. *)
Definition get_weather_fn : PyFunc := {|
  fn_name := Some (lit "get_weather");
  fn_doc := Some (lit "Fetches the weather for a given location.");
  fn_call := fun kw =>
    match kw !! lit "location" with
    | Some v =>
        if decide (size kw = 1%nat) then
          match v with
          | VStr location => Ok (VStr (get_weather location))
          | _ => Ok (VStr not_available)
          end
        else Raise TypeError
    | None => Raise TypeError
    end
|}.

(** ** Cell 2: class Tool *)

Record Tool : Type := {
  name : pystr;
  description : pystr;
  func : PyFunc
}.

(** [Tool.run(self, **kwargs)]: [return self.func( **kwargs)].  The
    receiver is bound to the parameter [self], so a keyword argument of
    that name collides with it and the call raises [TypeError] before the
    body runs. *)
Definition Tool_run (self : Tool) (kw : kwargs) : result Value :=
  match kw !! lit "self" with
  | Some _ => Raise TypeError
  | None => fn_call (func self) kw
  end.

(** ** Cell 3: class Agent *)

(** What the methods of an agent read and write: the dictionary
    [self.tools] and the messages printed so far, oldest first. *)
Record World : Type := {
  tools : gmap pystr Tool;
  stdout : list pystr
}.

(** [Agent()]: an empty registry. *)
Definition Agent_init (out : list pystr) : World :=
  {| tools := ∅; stdout := out |}.

(** A method body: it runs in a world, leaves a world, and returns or
    raises. *)
Definition M (A : Type) : Type := World -> World * result A.

Global Instance M_ret : MRet M := fun A a w => (w, Ok a).
Global Instance M_bind : MBind M := fun A B k m w =>
  match m w with
  | (w', Ok a) => k a w'
  | (w', Raise e) => (w', Raise e)
  end.

Definition lift {A} (r : result A) : M A := fun w => (w, r).

Definition print (s : pystr) : M unit := fun w =>
  ({| tools := tools w; stdout := stdout w ++ [s] |}, Ok tt).

(** [self.tools.get(key)] *)
Definition tools_get (key : pystr) : M (option Tool) := fun w =>
  (w, Ok (tools w !! key)).

(** [self.tools[key] = tool] *)
Definition tools_set (key : pystr) (tool : Tool) : M unit := fun w =>
  ({| tools := <[key := tool]> (tools w); stdout := stdout w |}, Ok tt).

(** [func.__name__] *)
Definition get_name (f : PyFunc) : M pystr :=
  lift (match fn_name f with Some n => Ok n | None => Raise AttributeError end).

(** The tool [register_tool] builds from a function with a name. *)
Definition tool_of (n : pystr) (f : PyFunc) : Tool :=
  {| name := n; description := or_empty (fn_doc f); func := f |}.

(** [Agent.register_tool(self, func)] *)
Definition register_tool (f : PyFunc) : M unit :=
  n ← get_name f;
  let tool := tool_of n f in
  tools_set (name tool) tool.

(** The dictionary literal [action] of [Agent.run]. *)
Record ActionRequest : Type := {
  action : pystr;
  action_input : kwargs
}.

Definition newline : pystr := [10].

Definition thought_msg : pystr :=
  [129504] ++ lit " Thought: Determine which tool to use based on user input.".

Definition not_found_msg : pystr := [10060] ++ lit " Tool not found.".

Definition updated_thought_msg : pystr :=
  newline ++ [128260] ++ lit " Updated Thought: I now have the data needed for the user.".

(** The literal parts that open the Observation and Final Response
    messages. *)
Definition observation_prefix : pystr :=
  newline ++ [128064] ++ lit " Observation: Tool returned -> '".

Definition final_prefix : pystr :=
  newline ++ [128172] ++ lit " Final Response: The current weather in ".

Definition observation_msg (res : Value) : pystr :=
  observation_prefix ++ py_format res ++ lit "'".

Definition final_msg (location : pystr) (res : Value) : pystr :=
  final_prefix ++ location ++ lit " is: " ++ py_format res.

Definition is_observation (m : pystr) : bool := startswith observation_prefix m.
Definition is_final (m : pystr) : bool := startswith final_prefix m.

Section Agent_run.

(** [str(d)] for a dictionary [d]: Python's built-in rendering of the
    keys and values with [repr].  It belongs to the runtime, not to the
    notebook, and is taken as given. *)
Variable str_of_dict : kwargs -> pystr.

Definition action_msg (a : ActionRequest) : pystr :=
  newline ++ [9881; 65039] ++ lit " Action: Executing tool '" ++ action a
    ++ lit "' with input: " ++ str_of_dict (action_input a).

(** The action of line 121: the tool name is a literal. *)
Definition plan (location : pystr) : ActionRequest :=
  {| action := lit "get_weather";
     action_input := {[ lit "location" := VStr location ]} |}.

(** [Agent.run(self, user_input)] *)
Definition run (user_input : pystr) : M unit :=
  print thought_msg;;
  location ← lift (extract_location user_input);
  let action_ := plan location in
  print (action_msg action_);;
  tool ← tools_get (action action_);
  match tool with
  | None =>
      print not_found_msg;;
      mret tt
  | Some tool =>
      res ← lift (Tool_run tool (action_input action_));
      print (observation_msg res);;
      print updated_thought_msg;;
      print (final_msg location res)
  end.

End Agent_run.

(** The world after [msgs] more messages. *)
Definition printed (w : World) (msgs : list pystr) : World :=
  {| tools := tools w; stdout := stdout w ++ msgs |}.

(** The registry invariant: the keys are distinct, and each entry is filed
    under the name of its tool, which is the [__name__] of the function it
    wraps. *)
Definition registry_inv (reg : gmap pystr Tool) : Prop :=
  NoDup (map_to_list reg).*1 /\
  forall k t, reg !! k = Some t ->
    name t = k /\ fn_name (func t) = Some k.

(** The message a call ends with, when it is a Final Response. *)
Definition final_response (out : list pystr) : option pystr :=
  match last out with
  | Some m => if is_final m then Some m else None
  | None => None
  end.

(** A rendering of dictionaries for the examples: the one Python gives for
    a single string entry whose key and value need no escaping. *)
Definition plain_str_of_dict (d : kwargs) : pystr :=
  match map_to_list d with
  | [(k, VStr v)] => lit "{'" ++ k ++ lit "': '" ++ v ++ lit "'}"
  | _ => lit "{...}"
  end.

(** The question of the last code cell; its apostrophe is U+2019. *)
Definition notebook_input : pystr :=
  [87; 104; 97; 116; 8217] ++ lit "s the weather in New York?".

(** The last code cell, on the agent [Agent()]:
    [agent.register_tool(get_weather)], then [agent.run(...)]. *)
Definition notebook_cell : M unit :=
  register_tool get_weather_fn;;
  run plain_str_of_dict notebook_input.

(** The agent of the last cell, after [register_tool(get_weather)]. *)
Definition notebook_agent : World :=
  fst (register_tool get_weather_fn (Agent_init [])).

(** ** The description of the extraction, to compare with line 118 *)

(** Following the description: the text after the last occurrence of the
    separator ([rfind]); the whole string when there is none. *)
Definition after_last (sep s : pystr) : pystr :=
  match rfind sep s with
  | Some i => drop (i + length sep) s
  | None => s
  end.

(** Following the description: white space, ['?'] and ['.'] as one class
    of characters to strip. *)
Definition space_or_punct (c : N) : bool :=
  isspace c || char_in (lit "?.") c.

(** Following the description: the location as the segment after the last
    [" in "], stripped of surrounding white space, ['?'] and ['.']. *)
Definition described_location (s : pystr) : pystr :=
  strip space_or_punct (after_last sep_in s).

(** ** Functions for the examples *)

(** A function that accepts any keyword arguments: [def anything( **kw): return None]. *)
Definition accepts_anything : PyFunc := {|
  fn_name := Some (lit "anything");
  fn_doc := None;
  fn_call := fun _ => Ok VNone
|}.

(** A second function named [get_weather]. *)
Definition get_weather_v2 : PyFunc := {|
  fn_name := Some (lit "get_weather");
  fn_doc := None;
  fn_call := fun _ => Ok (VStr (lit "Snow"))
|}.

(** A function named [get_weather] that always raises. *)
Definition get_weather_broken : PyFunc := {|
  fn_name := Some (lit "get_weather");
  fn_doc := None;
  fn_call := fun _ => Raise (RuntimeError 1)
|}.

(** * Facts about the string operations *)

Module PyStrFacts.

Local Open Scope nat_scope.

Lemma startswith_spec p s :
  startswith p s = true <-> exists r, s = p ++ r.
Proof.
  revert s. induction p as [|a p IH]; intros s; simpl.
  - split; [intros _; by exists s | done].
  - destruct s as [|b s].
    + split; [done | intros [r Hr]; discriminate Hr].
    + rewrite andb_true_iff, N.eqb_eq, IH. split.
      * intros [-> [r ->]]. by exists r.
      * intros [r Hr]. injection Hr as -> ->. eauto.
Qed.

Lemma startswith_app p r : startswith p (p ++ r) = true.
Proof. apply startswith_spec. by exists r. Qed.

Lemma endswith_spec p s :
  endswith p s = true <-> exists a, s = a ++ p.
Proof.
  unfold endswith. rewrite startswith_spec. split.
  - intros [r Hr]. exists (rev r).
    rewrite <- (rev_involutive s), Hr, rev_app_distr.
    by rewrite rev_involutive.
  - intros [a ->]. exists (rev a). by rewrite rev_app_distr.
Qed.

Lemma find_unfold sep s :
  find sep s =
    if startswith sep s then Some 0
    else match s with [] => None | _ :: s' => S <$> find sep s' end.
Proof. by destruct s. Qed.

Lemma find_Some_occurs sep s i :
  find sep s = Some i ->
  s = take i s ++ sep ++ drop (i + length sep) s /\ i <= length s.
Proof.
  revert i. induction s as [|c s IH]; intros i; simpl.
  - destruct (startswith sep []) eqn:E; [|done].
    intros [= <-]. apply startswith_spec in E as [r Hr].
    symmetry in Hr. apply app_eq_nil in Hr as [-> ->]. done.
  - destruct (startswith sep (c :: s)) eqn:E.
    + intros [= <-]. apply startswith_spec in E as [r Hr]. split; [|lia].
      simpl. rewrite Hr at 1. f_equal.
      rewrite Hr, drop_app_length. done.
    + destruct (find sep s) as [j|] eqn:F; [|done].
      intros [= <-]. destruct (IH j eq_refl) as [Hs Hj].
      split; [|lia]. simpl. f_equal. exact Hs.
Qed.

Lemma find_least sep a b :
  exists i, find sep (a ++ sep ++ b) = Some i /\ i <= length a.
Proof.
  induction a as [|c a IH].
  - exists 0. split; [|done].
    by rewrite app_nil_l, find_unfold, startswith_app.
  - destruct IH as (i & Hi & Hle). simpl.
    destruct (startswith sep (c :: a ++ sep ++ b)).
    + exists 0. split; [done | lia].
    + exists (S i). rewrite Hi. split; [done | simpl; lia].
Qed.

Lemma find_is_Some sep s : is_Some (find sep s) <-> occurs sep s.
Proof.
  split.
  - intros [i Hi]. apply find_Some_occurs in Hi as [Hs _].
    by exists (take i s), (drop (i + length sep) s).
  - intros (a & b & ->). destruct (find_least sep a b) as (i & Hi & _).
    by exists i.
Qed.

Lemma find_None sep s : find sep s = None <-> ~ occurs sep s.
Proof.
  rewrite <- find_is_Some, <- eq_None_not_Some. done.
Qed.

Lemma contains_occurs sep s : contains sep s = true <-> occurs sep s.
Proof.
  unfold contains. by rewrite bool_decide_eq_true, find_is_Some.
Qed.

Lemma occurs_infix sep x s y : occurs sep s -> occurs sep (x ++ s ++ y).
Proof.
  intros (a & b & ->). exists (x ++ a), (b ++ y).
  by rewrite <- !app_assoc.
Qed.

(** *** split *)

Lemma find_nil sep : sep <> [] -> find sep [] = None.
Proof. by destruct sep. Qed.

Lemma split_max_enough sep :
  sep <> [] ->
  forall n m s, length s <= n -> length s <= m ->
    split_max n sep s = split_max m sep s.
Proof.
  intros Hsep. induction n as [|n IH]; intros m s Hn Hm.
  - destruct s; [|simpl in Hn; lia].
    destruct m; cbn [split_max]; [done | by rewrite find_nil].
  - destruct m as [|m].
    + destruct s; [|simpl in Hm; lia]. cbn [split_max]. by rewrite find_nil.
    + cbn [split_max]. destruct (find sep s) as [i|] eqn:F; [|done].
      f_equal. assert (0 < length sep) by (destruct sep; [done | simpl; lia]).
      apply IH; rewrite length_drop; lia.
Qed.

(** The loop of [split], one round at a time. *)
Lemma split_unfold sep s :
  sep <> [] ->
  split sep s =
    match find sep s with
    | None => [s]
    | Some i => take i s :: split sep (drop (i + length sep) s)
    end.
Proof.
  intros Hsep. unfold split. destruct s as [|c s].
  - cbn [split_max length]. by rewrite find_nil.
  - change (length (c :: s)) with (S (length s)).
    cbn [split_max]. destruct (find sep (c :: s)) as [i|] eqn:F; [|done].
    f_equal. assert (0 < length sep) by (destruct sep; [done | simpl; lia]).
    apply split_max_enough; [done | | done].
    rewrite length_drop. simpl. lia.
Qed.

Lemma split_no_sep sep s : sep <> [] -> find sep s = None -> split sep s = [s].
Proof. intros Hsep F. by rewrite split_unfold, F. Qed.

Lemma split_last_is_Some sep s : sep <> [] -> is_Some (last (split sep s)).
Proof.
  intros Hsep. rewrite split_unfold by done.
  destruct (find sep s); [|by eexists].
  rewrite last_cons. destruct (last _); by eexists.
Qed.

(** *** strip *)

Lemma lstrip_keep p a c b :
  p c = false -> lstrip p (a ++ c :: b) = lstrip p a ++ c :: b.
Proof.
  intros Hc. induction a as [|x a IH]; simpl.
  - by rewrite Hc.
  - by destruct (p x).
Qed.

Lemma rstrip_keep p a c b :
  p c = false -> rstrip p (a ++ c :: b) = a ++ c :: rstrip p b.
Proof.
  intros Hc. unfold rstrip.
  rewrite rev_app_distr. simpl rev. rewrite <- app_assoc. simpl app.
  rewrite lstrip_keep by done.
  rewrite rev_app_distr. simpl rev. rewrite rev_involutive.
  by rewrite <- app_assoc.
Qed.

Lemma has_other_split p s :
  has_other p s = true -> exists a c b, s = a ++ c :: b /\ p c = false.
Proof.
  unfold has_other. rewrite existsb_exists. intros (c & Hin & Hc).
  apply in_split in Hin as (a & b & ->).
  exists a, c, b. split; [done | by apply negb_true_iff].
Qed.

Lemma lstrip_app p s y :
  has_other p s = true -> lstrip p (s ++ y) = lstrip p s ++ y.
Proof.
  intros (a & c & b & -> & Hc)%has_other_split.
  rewrite <- app_assoc. simpl app.
  rewrite !lstrip_keep by done. by rewrite <- app_assoc.
Qed.

Lemma rstrip_app p x s :
  has_other p s = true -> rstrip p (x ++ s) = x ++ rstrip p s.
Proof.
  intros (a & c & b & -> & Hc)%has_other_split.
  rewrite app_assoc, !rstrip_keep by done. by rewrite <- app_assoc.
Qed.

Lemma lstrip_all p s : forallb p s = true -> lstrip p s = [].
Proof.
  induction s as [|c s IH]; simpl; [done|].
  destruct (p c); [exact IH | done].
Qed.

Lemma lstrip_all_app p s y :
  forallb p s = true -> lstrip p (s ++ y) = lstrip p y.
Proof.
  induction s as [|c s IH]; simpl; [done|].
  destruct (p c); [exact IH | done].
Qed.

Lemma rstrip_all_app p x s :
  forallb p s = true -> rstrip p (x ++ s) = rstrip p x.
Proof.
  intros Hs. unfold rstrip. rewrite rev_app_distr, lstrip_all_app; [done|].
  rewrite forallb_forall in *. intros c Hc. apply Hs. by apply in_rev.
Qed.

Lemma rstrip_all p s : forallb p s = true -> rstrip p s = [].
Proof.
  intros Hs. by rewrite <- (app_nil_l s), rstrip_all_app.
Qed.

(** Stripping removes a prefix and a suffix. *)
Lemma lstrip_suffix p s : exists x, s = x ++ lstrip p s.
Proof.
  induction s as [|c s [x Hx]]; simpl.
  - by exists [].
  - destruct (p c); [|by exists []].
    exists (c :: x). simpl. by f_equal.
Qed.

Lemma rstrip_prefix p s : exists y, s = rstrip p s ++ y.
Proof.
  unfold rstrip. destruct (lstrip_suffix p (rev s)) as [x Hx].
  exists (rev x). rewrite <- rev_app_distr, <- Hx. by rewrite rev_involutive.
Qed.

Lemma strip_infix p s : exists x y, s = x ++ strip p s ++ y.
Proof.
  unfold strip. destruct (lstrip_suffix p s) as [x Hx].
  destruct (rstrip_prefix p (lstrip p s)) as [y Hy].
  exists x, y. by rewrite <- Hy.
Qed.

Lemma forallb_rstrip q p s :
  forallb q s = true -> forallb q (rstrip p s) = true.
Proof.
  destruct (rstrip_prefix p s) as [y Hy]. intros Hs.
  rewrite Hy, forallb_app in Hs. by apply andb_true_iff in Hs as [? _].
Qed.

(** [s.strip()] on a string whose two ends [x] and [z] each hold a
    character that is not white space. *)
Lemma strip_app3 p x m z :
  has_other p x = true -> has_other p z = true ->
  strip p (x ++ m ++ z) = lstrip p x ++ m ++ rstrip p z.
Proof.
  intros Hx Hz. unfold strip.
  rewrite lstrip_app by done.
  rewrite !app_assoc, rstrip_app by done. done.
Qed.

End PyStrFacts.
Import PyStrFacts.

(** * The location taken from the input *)

Section Extraction.

Local Open Scope nat_scope.

Example extract_new_york :
  extract_location (lit "What's the weather in New York?") = Ok (lit "New York").
Proof. reflexivity. Qed.

Example extract_overlap :
  extract_location (lit "rain in in Tokyo") = Ok (lit "in Tokyo").
Proof. reflexivity. Qed.

Lemma sep_in_nonempty : sep_in <> [].
Proof. done. Qed.

Lemma rfind_None_find sep s : rfind sep s = None -> find sep s = None.
Proof.
  induction s as [|c s IH]; simpl.
  - by destruct (startswith sep []).
  - destruct (rfind sep s); [done|].
    destruct (startswith sep (c :: s)); [done|].
    intros _. by rewrite IH.
Qed.

(** No occurrence starts after the one [rfind] reports. *)
Lemma rfind_Some_later sep s i :
  sep <> [] -> rfind sep s = Some i -> find sep (drop (S i) s) = None.
Proof.
  intros Hsep. revert i. induction s as [|c s IH]; intros i; simpl rfind.
  - by destruct sep.
  - destruct (rfind sep s) as [k|] eqn:R.
    + intros [= <-]. simpl drop. by apply IH.
    + destruct (startswith sep (c :: s)); [|done].
      intros [= <-]. simpl drop. rewrite drop_0. by apply rfind_None_find.
Qed.

Lemma find_None_app_l sep x s : find sep (x ++ s) = None -> find sep s = None.
Proof.
  rewrite !find_None. intros Hn Ho. apply Hn.
  rewrite <- (app_nil_r s). by apply occurs_infix.
Qed.

Lemma find_None_app_r sep s y : find sep (s ++ y) = None -> find sep s = None.
Proof.
  rewrite !find_None. intros Hn Ho. apply Hn.
  by apply (occurs_infix sep [] s y).
Qed.

Lemma endswith_app_false p x s :
  endswith p (x ++ s) = false -> endswith p s = false.
Proof.
  intros Hx. destruct (endswith p s) eqn:E; [|done].
  apply endswith_spec in E as [a ->].
  rewrite <- Hx. symmetry. apply endswith_spec.
  exists (x ++ a). by rewrite app_assoc.
Qed.

(** The last piece of the split is what follows the occurrence of
    [" in "] shown, when neither an earlier occurrence overlaps it nor a
    later one exists. *)
Lemma split_last_after p r :
  endswith sep_open p = false ->
  find sep_in (sep_close ++ r) = None ->
  last (split sep_in (p ++ sep_in ++ r)) = Some r.
Proof.
  intros Hend Hlater.
  remember (length p) as n eqn:Hn. revert p Hn Hend.
  induction n as [n IH] using lt_wf_ind. intros p Hn Hend.
  destruct (find_least sep_in p r) as (i & Hi & Hle).
  rewrite split_unfold, Hi by done.
  apply find_Some_occurs in Hi as [Hs _].
  rewrite take_app_le in Hs by done.
  rewrite <- (take_drop i p) in Hs at 1.
  rewrite <- app_assoc in Hs. apply app_inv_head in Hs.
  change (length sep_in) with 4 in *.
  set (b := drop (i + 4) (p ++ sep_in ++ r)) in *.
  assert (Hp : p = take i p ++ drop i p) by (by rewrite take_drop).
  destruct (drop i p) as [|c1 [|c2 [|c3 [|c4 q]]]] eqn:Hq;
    unfold sep_in in Hs; simpl in Hs.
  - injection Hs as <-. rewrite split_no_sep; [done..|].
    by apply find_None_app_l in Hlater.
  - discriminate Hs.
  - discriminate Hs.
  - injection Hs as -> -> -> _.
    rewrite Hp in Hend. apply endswith_app_false in Hend. discriminate Hend.
  - injection Hs as -> -> -> -> Hb.
    assert (Hlen : length q < n).
    { pose proof (f_equal length Hp) as HL.
      rewrite length_app in HL. simpl in HL. lia. }
    rewrite last_cons, <- Hb.
    change (32%N :: 105%N :: 110%N :: 32%N :: r) with (sep_in ++ r).
    rewrite (IH (length q) Hlen q eq_refl); [done|].
    rewrite Hp in Hend. apply endswith_app_false in Hend.
    by apply (endswith_app_false _ sep_in) in Hend.
Qed.

(** [extract_location] never raises: [split] returns at least one piece. *)
Lemma extract_location_total s :
  exists seg,
    last (split sep_in (strip isspace s)) = Some seg /\
    extract_location s = Ok (strip (char_in strip_set) seg).
Proof.
  destruct (split_last_is_Some sep_in (strip isspace s) sep_in_nonempty)
    as [seg Hseg].
  exists seg. split; [done|].
  unfold extract_location, index_last. by rewrite Hseg.
Qed.

(** The location for an input [pre ++ " in " ++ rest] in which the
    separator shown survives the first [strip()], is not overlapped by an
    occurrence starting inside [pre], and is followed by no other. *)
Lemma extract_location_after pre rest :
  has_other isspace pre = true ->
  has_other isspace rest = true ->
  endswith sep_open pre = false ->
  find sep_in (sep_close ++ rest) = None ->
  extract_location (pre ++ sep_in ++ rest)
    = Ok (strip (char_in strip_set) (rstrip isspace rest)).
Proof.
  intros Hpre Hrest Hend Hlater.
  unfold extract_location, index_last.
  rewrite strip_app3 by done.
  rewrite split_last_after; [done | |].
  - destruct (lstrip_suffix isspace pre) as [x Hx].
    rewrite Hx in Hend. by apply endswith_app_false in Hend.
  - destruct (rstrip_prefix isspace rest) as [y Hy].
    rewrite Hy, app_assoc in Hlater. by apply find_None_app_r in Hlater.
Qed.

(** Without [" in "] the whole input is the only piece. *)
Lemma extract_location_no_sep s :
  contains sep_in s = false ->
  extract_location s
    = Ok (strip (char_in strip_set) (strip isspace s)).
Proof.
  intros Hc. unfold extract_location, index_last.
  rewrite split_no_sep; [done..|].
  apply find_None. intros Ho.
  destruct (strip_infix isspace s) as (x & y & Hs).
  apply (occurs_infix _ x _ y) in Ho. rewrite <- Hs in Ho.
  apply contains_occurs in Ho. congruence.
Qed.

End Extraction.

(** * The notebook's run *)

Example notebook_cell_output :
  notebook_cell (Agent_init [])
    = (printed notebook_agent
         [thought_msg;
          [10; 9881; 65039]
            ++ lit " Action: Executing tool 'get_weather' with input: {'location': 'New York'}";
          observation_msg (VStr partly_cloudy);
          updated_thought_msg;
          final_msg (lit "New York") (VStr partly_cloudy)], Ok tt).
Proof. reflexivity. Qed.

(** * The weather table *)

Lemma simulated_weather_keys :
  dom simulated_weather = {[ lit "New York"; lit "Tokyo"; lit "Berlin" ]}.
Proof. unfold simulated_weather. rewrite !dom_insert_L, dom_singleton_L. set_solver. Qed.

Example get_weather_new_york : get_weather (lit "New York") = partly_cloudy.
Proof. reflexivity. Qed.

Example get_weather_tokyo : get_weather (lit "Tokyo") = sunny.
Proof. reflexivity. Qed.

Example get_weather_berlin : get_weather (lit "Berlin") = rainy.
Proof. reflexivity. Qed.

(** C2. For every key of the simulated weather table, [get_weather] called
    with that key returns the description stored under it, and so does the
    function object when it is called with the keyword [location]. *)
Theorem get_weather_known (location description : pystr) :
  simulated_weather !! location = Some description ->
  get_weather location = description /\
  fn_call get_weather_fn {[ lit "location" := VStr location ]}
    = Ok (VStr description).
Proof.
  intros Hin. assert (Hg : get_weather location = description).
  { unfold get_weather. by rewrite Hin. }
  split; [done|]. simpl.
  rewrite lookup_singleton_eq, map_size_singleton.
  rewrite decide_True by done. by rewrite Hg.
Qed.

Lemma get_weather_known_witness :
  simulated_weather !! lit "New York" = Some partly_cloudy /\
  get_weather (lit "New York") = partly_cloudy /\
  fn_call get_weather_fn {[ lit "location" := VStr (lit "New York") ]}
    = Ok (VStr partly_cloudy).
Proof.
  split; [reflexivity|].
  apply (get_weather_known (lit "New York") partly_cloudy). reflexivity.
Defined.

(** C3. For every location that is not a key of the simulated weather
    table, [get_weather] returns the fallback string
    "Weather data not available.". *)
Theorem get_weather_unknown (location : pystr) :
  simulated_weather !! location = None ->
  get_weather location = lit "Weather data not available." /\
  fn_call get_weather_fn {[ lit "location" := VStr location ]}
    = Ok (VStr (lit "Weather data not available.")).
Proof.
  intros Hout. assert (Hg : get_weather location = not_available).
  { unfold get_weather. by rewrite Hout. }
  split; [done|]. simpl.
  rewrite lookup_singleton_eq, map_size_singleton.
  rewrite decide_True by done. by rewrite Hg.
Qed.

Lemma get_weather_unknown_witness :
  simulated_weather !! lit "Paris" = None /\
  get_weather (lit "Paris") = lit "Weather data not available." /\
  fn_call get_weather_fn {[ lit "location" := VStr (lit "Paris") ]}
    = Ok (VStr (lit "Weather data not available.")).
Proof.
  split; [reflexivity|].
  apply (get_weather_unknown (lit "Paris")). reflexivity.
Defined.

(** * The location: what the description says and what line 118 computes *)

Example described_new_york :
  described_location (lit "What's the weather in New York?") = lit "New York".
Proof. reflexivity. Qed.

(** The description does not hold when two occurrences of [" in "] share a
    space: [split] cuts at the first of them and the second stays in the
    last piece. *)
Lemma extract_location_overlap_differs :
  ~ (contains sep_in (lit "Which city am I in in Japan?") = true ->
     extract_location (lit "Which city am I in in Japan?")
       = Ok (described_location (lit "Which city am I in in Japan?"))).
Proof. intros H. specialize (H eq_refl). vm_compute in H. discriminate H. Qed.

Example extract_location_overlap :
  extract_location (lit "Which city am I in in Japan?") = Ok (lit "in Japan") /\
  described_location (lit "Which city am I in in Japan?") = lit "Japan".
Proof. split; reflexivity. Qed.

(** Nor when white space other than the space stands between the location
    and the punctuation: the second [strip] removes [' '], ['?'] and ['.']
    only (9 is the tabulation). *)
Example extract_location_tab :
  extract_location (lit "weather in Tokyo" ++ [9] ++ lit "?")
    = Ok (lit "Tokyo" ++ [9]) /\
  described_location (lit "weather in Tokyo" ++ [9] ++ lit "?") = lit "Tokyo".
Proof. split; reflexivity. Qed.

(** Nor when the first [strip()] removes a space of the separator. *)
Example extract_location_leading_sep :
  extract_location (lit " in Tokyo") = Ok (lit "in Tokyo") /\
  described_location (lit " in Tokyo") = lit "Tokyo".
Proof. split; reflexivity. Qed.

Lemma after_last_app pre rest :
  rfind sep_in (pre ++ sep_in ++ rest) = Some (length pre) ->
  after_last sep_in (pre ++ sep_in ++ rest) = rest.
Proof.
  intros Hr. unfold after_last. rewrite Hr.
  rewrite app_assoc. apply drop_app_length'. by rewrite length_app.
Qed.

(** C1 (amended). For an input [pre ++ " in " ++ rest] whose last
    occurrence of [" in "] is the one shown, where [pre] and [rest] each
    hold a character that is not white space and [pre] does not end in
    [" in"], the extracted location is [rest], the segment after that last
    occurrence, with trailing white space removed and then leading and
    trailing [' '], ['?'] and ['.'] removed. *)
Theorem extract_location_last_occurrence (pre rest : pystr) :
  has_other isspace pre = true ->
  has_other isspace rest = true ->
  endswith sep_open pre = false ->
  rfind sep_in (pre ++ sep_in ++ rest) = Some (length pre) ->
  after_last sep_in (pre ++ sep_in ++ rest) = rest /\
  extract_location (pre ++ sep_in ++ rest)
    = Ok (strip (char_in strip_set) (rstrip isspace rest)).
Proof.
  intros Hpre Hrest Hend Hlast. split; [by apply after_last_app|].
  apply extract_location_after; [done..|].
  apply rfind_Some_later in Hlast; [|done].
  rewrite drop_app_ge in Hlast by lia.
  replace (S (length pre) - length pre)%nat with 1%nat in Hlast by lia.
  exact Hlast.
Qed.

Lemma extract_location_last_occurrence_witness :
  let pre := [87; 104; 97; 116; 8217] ++ lit "s the weather" in
  let rest := lit "New York?" in
  pre ++ sep_in ++ rest = notebook_input /\
  after_last sep_in notebook_input = rest /\
  extract_location notebook_input = Ok (lit "New York").
Proof.
  intros pre rest. split; [reflexivity|].
  apply (extract_location_last_occurrence pre rest); reflexivity.
Defined.

(** * Tool.run *)

(** The wrapper differs from the wrapped function on a keyword named
    [self]: the function above returns [None], the wrapper raises. *)
Lemma Tool_run_self_differs :
  ~ (forall (name_ description_ : pystr) (f : PyFunc) (kw : kwargs),
       Tool_run {| name := name_; description := description_; func := f |} kw
         = fn_call f kw).
Proof.
  intros H.
  specialize (H (lit "anything") [] accepts_anything {[ lit "self" := VNone ]}).
  vm_compute in H. discriminate H.
Qed.

(** C7 (amended). For every wrapped callable [f] and every keyword
    mapping without the key [self], [Tool(name, description, f).run] on
    that mapping equals [f] on it: the result is returned unchanged and an
    exception of [f] is the exception of the call. *)
Theorem Tool_run_forwards (name_ description_ : pystr) (f : PyFunc) (kw : kwargs) :
  kw !! lit "self" = None ->
  Tool_run {| name := name_; description := description_; func := f |} kw
    = fn_call f kw.
Proof. intros Hself. unfold Tool_run. by rewrite Hself. Qed.

(** What the wrapped function returns is returned, what it raises is
    raised. *)
Corollary Tool_run_result (t : Tool) (kw : kwargs) (r : result Value) :
  kw !! lit "self" = None -> fn_call (func t) kw = r -> Tool_run t kw = r.
Proof. intros Hself <-. unfold Tool_run. by rewrite Hself. Qed.

Lemma Tool_run_forwards_witness :
  let kw : kwargs := {[ lit "location" := VStr (lit "Tokyo") ]} in
  kw !! lit "self" = None /\
  Tool_run {| name := lit "get_weather"; description := []; func := get_weather_fn |} kw
    = fn_call get_weather_fn kw /\
  fn_call get_weather_fn kw = Ok (VStr sunny).
Proof.
  intros kw. split; [reflexivity|]. split; [|reflexivity].
  apply (Tool_run_forwards (lit "get_weather") [] get_weather_fn kw). reflexivity.
Defined.

(** * The registry *)

Lemma register_tool_named f n w :
  fn_name f = Some n ->
  register_tool f w
    = ({| tools := <[n := tool_of n f]> (tools w); stdout := stdout w |}, Ok tt).
Proof.
  intros Hn. unfold register_tool, get_name, lift, mbind, M_bind, tools_set.
  by rewrite Hn.
Qed.

Lemma register_tool_unnamed f w :
  fn_name f = None -> register_tool f w = (w, Raise AttributeError).
Proof.
  intros Hn. unfold register_tool, get_name, lift, mbind, M_bind.
  by rewrite Hn.
Qed.

(** C6. Registering two callables that carry the same name overwrites
    silently: both calls return without raising, and afterwards the
    registry holds under that name the tool built from the second
    callable, the entries under other names being those of before. *)
Theorem register_tool_overwrites (f1 f2 : PyFunc) (n : pystr) (w : World) :
  fn_name f1 = Some n ->
  fn_name f2 = Some n ->
  let after := (register_tool f1;; register_tool f2) w in
  snd after = Ok tt /\
  tools (fst after) !! n = Some (tool_of n f2) /\
  tools (fst after) = <[n := tool_of n f2]> (tools w) /\
  stdout (fst after) = stdout w.
Proof.
  intros H1 H2. unfold mbind, M_bind.
  rewrite (register_tool_named f1 n) by done.
  rewrite (register_tool_named f2 n) by done. simpl.
  rewrite insert_insert_eq, lookup_insert_eq. done.
Qed.

Lemma register_tool_overwrites_witness :
  let after := (register_tool get_weather_fn;; register_tool get_weather_v2)
                 (Agent_init []) in
  fn_name get_weather_fn = Some (lit "get_weather") /\
  fn_name get_weather_v2 = Some (lit "get_weather") /\
  snd after = Ok tt /\
  tools (fst after) !! lit "get_weather"
    = Some (tool_of (lit "get_weather") get_weather_v2).
Proof.
  intros after. split; [reflexivity|]. split; [reflexivity|].
  destruct (register_tool_overwrites get_weather_fn get_weather_v2
              (lit "get_weather") (Agent_init []) eq_refl eq_refl)
    as (Hok & Hget & _).
  split; [exact Hok | exact Hget].
Defined.

(** * Inputs that name Tokyo *)

Lemma find_sep_in_without_i (l : pystr) :
  forallb (fun c => negb (c =? 105)) l = true -> find sep_in l = None.
Proof.
  intros Hl. apply find_None. intros (a & b & ->).
  rewrite forallb_app in Hl. apply andb_true_iff in Hl as [_ Hl].
  unfold sep_in in Hl. simpl in Hl. discriminate Hl.
Qed.

Lemma forallb_impl (p q : N -> bool) (l : pystr) :
  (forall c, p c = true -> q c = true) ->
  forallb p l = true -> forallb q l = true.
Proof. rewrite !forallb_forall. auto. Qed.

Lemma strip_set_not_i c : char_in strip_set c = true -> negb (c =? 105) = true.
Proof.
  unfold char_in, strip_set. simpl. rewrite !orb_true_iff, !N.eqb_eq.
  intros [->|[->|[->|?]]]; done.
Qed.

Lemma isspace_not_i c : isspace c = true -> negb (c =? 105) = true.
Proof.
  intros Hc. destruct (N.eqb_spec c 105) as [->|]; [discriminate Hc | done].
Qed.

(** The location is ["Tokyo"] when [" in Tokyo"] closes the input, up to
    [' '], ['?'], ['.'] and then white space, and the separator shown is
    neither stripped nor overlapped from the left. *)
Lemma extract_location_tokyo (pre punct trail : pystr) :
  has_other isspace pre = true ->
  endswith sep_open pre = false ->
  forallb (char_in strip_set) punct = true ->
  forallb isspace trail = true ->
  extract_location (pre ++ lit " in Tokyo" ++ punct ++ trail) = Ok (lit "Tokyo").
Proof.
  intros Hpre Hend Hpunct Htrail.
  change (lit " in Tokyo" ++ punct ++ trail)
    with (sep_in ++ lit "Tokyo" ++ punct ++ trail).
  rewrite extract_location_after; [| done | reflexivity | done |].
  - f_equal.
    rewrite (app_assoc (lit "Tokyo")), rstrip_all_app by done.
    change (lit "Tokyo" ++ punct) with (lit "Toky" ++ 111 :: punct).
    rewrite rstrip_keep by reflexivity.
    unfold strip. change (lstrip (char_in strip_set) (lit "Toky" ++ ?l))
      with (lit "Toky" ++ l).
    rewrite rstrip_keep by reflexivity.
    rewrite rstrip_all; [reflexivity|]. by apply forallb_rstrip.
  - change (sep_close ++ lit "Tokyo" ++ punct ++ trail)
      with (105 :: 110 :: 32 :: 84 :: 111 :: 107 :: 121 :: 111 :: punct ++ trail).
    assert (Hl : find sep_in (punct ++ trail) = None).
    { apply find_sep_in_without_i. rewrite forallb_app.
      apply andb_true_iff. split.
      - revert Hpunct. apply forallb_impl, strip_set_not_i.
      - revert Htrail. apply forallb_impl, isspace_not_i. }
    rewrite !(find_unfold sep_in (_ :: _)). unfold sep_in at 1 2 3 4 5 6 7 8.
    cbn [startswith N.eqb Pos.eqb andb]. by rewrite Hl.
Qed.

Lemma final_response_snoc out loc res :
  final_response (out ++ [final_msg loc res]) = Some (final_msg loc res).
Proof.
  unfold final_response, is_final, final_msg.
  by rewrite last_snoc, startswith_app.
Qed.

(** * Agent.run *)

Section RunFacts.

Variable str_of_dict : kwargs -> pystr.

(** The three ways a call of [run] ends, by what the registry holds under
    ["get_weather"] and what the tool does. *)
Lemma run_cases (s loc : pystr) (w : World) :
  extract_location s = Ok loc ->
  run str_of_dict s w =
    match tools w !! lit "get_weather" with
    | None =>
        (printed w [thought_msg; action_msg str_of_dict (plan loc);
                    not_found_msg], Ok tt)
    | Some t =>
        match Tool_run t {[ lit "location" := VStr loc ]} with
        | Ok res =>
            (printed w [thought_msg; action_msg str_of_dict (plan loc);
                        observation_msg res; updated_thought_msg;
                        final_msg loc res], Ok tt)
        | Raise e =>
            (printed w [thought_msg; action_msg str_of_dict (plan loc)],
             Raise e)
        end
    end.
Proof.
  intros Hloc.
  unfold run, mbind, M_bind, mret, M_ret, print, lift, tools_get, printed.
  cbn [tools stdout]. rewrite Hloc. cbn [plan action action_input].
  destruct (tools w !! lit "get_weather") as [t|]; cbn [tools stdout].
  - destruct (Tool_run t _) as [res|e]; cbn [tools stdout];
      by rewrite <- ?app_assoc.
  - by rewrite <- ?app_assoc.
Qed.

(** [run] only reads the registry. *)
Lemma run_tools (s : pystr) (w : World) :
  tools (fst (run str_of_dict s w)) = tools w.
Proof.
  destruct (extract_location_total s) as (seg & _ & Hloc).
  rewrite (run_cases s _ w Hloc).
  destruct (tools w !! lit "get_weather") as [t|]; [|done].
  by destruct (Tool_run t _).
Qed.

(** C4. When no tool is registered under ["get_weather"], [run] prints the
    Thought and Action messages and the notice "Tool not found.", then
    returns: none of the messages is an Observation or a Final Response.
    No other failure is handled: when the tool is there and raises, the
    exception leaves [run] as it is, after the Thought and Action messages
    only. *)
Theorem run_tool_not_found (s : pystr) (w : World) :
  (tools w !! lit "get_weather" = None ->
   exists loc msgs,
     extract_location s = Ok loc /\
     msgs = [thought_msg; action_msg str_of_dict (plan loc); not_found_msg] /\
     run str_of_dict s w = (printed w msgs, Ok tt) /\
     forallb (fun m => negb (is_observation m) && negb (is_final m)) msgs = true) /\
  (forall t e loc,
     tools w !! lit "get_weather" = Some t ->
     extract_location s = Ok loc ->
     Tool_run t {[ lit "location" := VStr loc ]} = Raise e ->
     run str_of_dict s w
       = (printed w [thought_msg; action_msg str_of_dict (plan loc)], Raise e)).
Proof.
  split.
  - intros Hno. destruct (extract_location_total s) as (seg & _ & Hloc).
    eexists _, _. split; [exact Hloc|]. split; [reflexivity|]. split.
    + by rewrite (run_cases s _ w Hloc), Hno.
    + reflexivity.
  - intros t e loc Ht Hloc He.
    by rewrite (run_cases s _ w Hloc), Ht, He.
Qed.

(** C8. For every input and every registry, the Action message [run]
    prints is that of the action record whose tool name is the literal
    ["get_weather"] and whose input holds the extracted location under
    [location] and nothing else. *)
Theorem run_action_fixed (s : pystr) (w : World) :
  exists loc more r,
    extract_location s = Ok loc /\
    plan loc = {| action := lit "get_weather";
                  action_input := {[ lit "location" := VStr loc ]} |} /\
    dom (action_input (plan loc)) = {[ lit "location" ]} /\
    run str_of_dict s w
      = (printed w (thought_msg :: action_msg str_of_dict (plan loc) :: more), r).
Proof.
  destruct (extract_location_total s) as (seg & _ & Hloc).
  exists (strip (char_in strip_set) seg).
  rewrite (run_cases s _ w Hloc).
  destruct (tools w !! lit "get_weather") as [t|];
    [destruct (Tool_run t _)|];
    eexists _, _; (split; [exact Hloc|]); (split; [reflexivity|]);
    (split; [apply dom_singleton_L | reflexivity]).
Qed.

(** C9. The registry keeps its invariant: it holds for the empty registry
    of a new agent, every call of [register_tool] preserves it, whether
    it returns or raises, and [run] leaves the registry as it found it. *)
Theorem registry_invariant :
  (forall out, registry_inv (tools (Agent_init out))) /\
  (forall f w, registry_inv (tools w) ->
     registry_inv (tools (fst (register_tool f w)))) /\
  (forall s w, tools (fst (run str_of_dict s w)) = tools w).
Proof.
  split; [|split].
  - intros out. split; [apply NoDup_fst_map_to_list|].
    intros k t Hk. simpl in Hk. by rewrite lookup_empty in Hk.
  - intros f w [_ Hinv]. split; [apply NoDup_fst_map_to_list|].
    destruct (fn_name f) as [n|] eqn:Hn.
    + rewrite (register_tool_named f n w Hn). simpl.
      intros k t. rewrite lookup_insert. case_decide as Hk.
      * intros [= <-]. by subst k.
      * apply Hinv.
    + by rewrite (register_tool_unnamed f w Hn).
  - apply run_tools.
Qed.

(** C10. For an input without [" in "], the extraction does not fail: the
    location is the whole input stripped of surrounding white space and
    then of leading and trailing [' '], ['?'] and ['.'], and [run] goes on
    to the same ["get_weather"] action, with that location. *)
Theorem run_without_separator (s : pystr) (w : World) :
  contains sep_in s = false ->
  let loc := strip (char_in strip_set) (strip isspace s) in
  extract_location s = Ok loc /\
  exists more r,
    run str_of_dict s w
      = (printed w
           (thought_msg
            :: action_msg str_of_dict
                 {| action := lit "get_weather";
                    action_input := {[ lit "location" := VStr loc ]} |}
            :: more), r).
Proof.
  intros Hno loc. pose proof (extract_location_no_sep s Hno) as Hloc.
  split; [exact Hloc|].
  rewrite (run_cases s _ w Hloc). fold loc.
  destruct (tools w !! lit "get_weather") as [t|];
    [destruct (Tool_run t _)|]; eexists _, _; reflexivity.
Qed.

(** C5 (amended). After [get_weather] is registered, for every input in
    which [" in Tokyo"] is followed only by [' '], ['?'] and ['.'] and then
    white space, and is preceded by text that holds a character other than
    white space and does not end in [" in"], [run] returns after a Final
    Response that contains "Sunny, 28°C, 40% humidity". *)
Theorem run_tokyo (pre punct trail : pystr) (w0 : World) :
  has_other isspace pre = true ->
  endswith sep_open pre = false ->
  forallb (char_in strip_set) punct = true ->
  forallb isspace trail = true ->
  let w := fst (register_tool get_weather_fn w0) in
  let after := run str_of_dict (pre ++ lit " in Tokyo" ++ punct ++ trail) w in
  after
    = (printed w [thought_msg; action_msg str_of_dict (plan (lit "Tokyo"));
                  observation_msg (VStr sunny); updated_thought_msg;
                  final_msg (lit "Tokyo") (VStr sunny)], Ok tt) /\
  exists m, final_response (stdout (fst after)) = Some m /\
            contains sunny m = true.
Proof.
  intros Hpre Hend Hpunct Htrail w after.
  pose proof (extract_location_tokyo pre punct trail Hpre Hend Hpunct Htrail)
    as Hloc.
  assert (Hrun : after
    = (printed w [thought_msg; action_msg str_of_dict (plan (lit "Tokyo"));
                  observation_msg (VStr sunny); updated_thought_msg;
                  final_msg (lit "Tokyo") (VStr sunny)], Ok tt)).
  { unfold after. rewrite (run_cases _ _ w Hloc). unfold w.
    rewrite (register_tool_named get_weather_fn (lit "get_weather") w0 eq_refl).
    cbn [fst tools]. rewrite lookup_insert_eq.
    by rewrite (Tool_run_result _ _ (Ok (VStr sunny))). }
  split; [exact Hrun|].
  exists (final_msg (lit "Tokyo") (VStr sunny)). split; [|reflexivity].
  rewrite Hrun. cbn [fst stdout printed].
  change [thought_msg; action_msg str_of_dict (plan (lit "Tokyo"));
          observation_msg (VStr sunny); updated_thought_msg;
          final_msg (lit "Tokyo") (VStr sunny)]
    with ([thought_msg; action_msg str_of_dict (plan (lit "Tokyo"));
           observation_msg (VStr sunny); updated_thought_msg]
          ++ [final_msg (lit "Tokyo") (VStr sunny)]).
  rewrite app_assoc. apply final_response_snoc.
Qed.

End RunFacts.

(** * The notebook's own agent *)

Lemma run_tool_not_found_witness :
  tools (Agent_init []) !! lit "get_weather" = None /\
  run plain_str_of_dict notebook_input (Agent_init [])
    = (printed (Agent_init [])
         [thought_msg; action_msg plain_str_of_dict (plan (lit "New York"));
          not_found_msg], Ok tt) /\
  run plain_str_of_dict notebook_input
      (fst (register_tool get_weather_broken (Agent_init [])))
    = (printed (fst (register_tool get_weather_broken (Agent_init [])))
         [thought_msg; action_msg plain_str_of_dict (plan (lit "New York"))],
       Raise (RuntimeError 1)).
Proof.
  split; [reflexivity|]. split.
  - destruct (run_tool_not_found plain_str_of_dict notebook_input (Agent_init []))
      as [Hnone _].
    destruct (Hnone eq_refl) as (loc & msgs & Hloc & -> & Hrun & _).
    rewrite Hrun. vm_compute in Hloc. injection Hloc as <-. reflexivity.
  - destruct (run_tool_not_found plain_str_of_dict notebook_input
                (fst (register_tool get_weather_broken (Agent_init []))))
      as [_ Hraise].
    apply (Hraise (tool_of (lit "get_weather") get_weather_broken));
      reflexivity.
Defined.

Lemma registry_invariant_witness :
  registry_inv (tools (Agent_init [])) /\
  registry_inv (tools notebook_agent) /\
  tools (fst (run plain_str_of_dict notebook_input notebook_agent))
    = tools notebook_agent.
Proof.
  destruct (registry_invariant plain_str_of_dict) as (Hinit & Hreg & Hrun).
  split; [apply Hinit|]. split; [|apply Hrun].
  apply Hreg, Hinit.
Defined.

Lemma run_without_separator_witness :
  contains sep_in (lit " Berlin? ") = false /\
  extract_location (lit " Berlin? ") = Ok (lit "Berlin") /\
  exists more r,
    run plain_str_of_dict (lit " Berlin? ") notebook_agent
      = (printed notebook_agent
           (thought_msg
            :: action_msg plain_str_of_dict
                 {| action := lit "get_weather";
                    action_input := {[ lit "location" := VStr (lit "Berlin") ]} |}
            :: more), r).
Proof.
  split; [reflexivity|].
  apply (run_without_separator plain_str_of_dict (lit " Berlin? ") notebook_agent).
  reflexivity.
Defined.

(** [" in Tokyo"] inside the input is not enough: what follows it stays in
    the location, which the table then does not hold. *)
Lemma run_tokyo_today_differs :
  ~ (contains (lit " in Tokyo") (lit "What's the weather in Tokyo today?") = true ->
     exists m,
       final_response
         (stdout (fst (run plain_str_of_dict
                         (lit "What's the weather in Tokyo today?")
                         notebook_agent))) = Some m /\
       contains sunny m = true).
Proof.
  intros H. destruct (H eq_refl) as (m & Hm & Hsunny).
  vm_compute in Hm. injection Hm as <-.
  vm_compute in Hsunny. discriminate Hsunny.
Qed.

Example run_tokyo_today :
  final_response
    (stdout (fst (run plain_str_of_dict
                    (lit "What's the weather in Tokyo today?") notebook_agent)))
  = Some (final_msg (lit "Tokyo today") (VStr not_available)).
Proof. reflexivity. Qed.

Lemma run_tokyo_witness :
  let pre := lit "What's the weather" in
  let after := run plain_str_of_dict (pre ++ lit " in Tokyo" ++ lit "?" ++ [])
                 notebook_agent in
  has_other isspace pre = true /\
  endswith sep_open pre = false /\
  forallb (char_in strip_set) (lit "?") = true /\
  forallb isspace [] = true /\
  exists m, final_response (stdout (fst after)) = Some m /\
            contains sunny m = true.
Proof.
  intros pre after. do 4 (split; [reflexivity|]).
  apply (run_tokyo plain_str_of_dict pre (lit "?") [] (Agent_init []));
    reflexivity.
Defined.

(** * More on the location *)

Section LocationFacts.

Local Open Scope nat_scope.

(** The last piece of a split closes the string and holds no separator. *)
Lemma split_last_suffix sep :
  sep <> [] ->
  forall s seg, last (split sep s) = Some seg ->
    (exists a, s = a ++ seg) /\ find sep seg = None.
Proof.
  intros Hsep s. remember (length s) as n eqn:Hn. revert s Hn.
  induction n as [n IH] using lt_wf_ind. intros s Hn seg.
  rewrite split_unfold by done.
  destruct (find sep s) as [i|] eqn:F.
  - rewrite last_cons.
    destruct (split_last_is_Some sep (drop (i + length sep) s) Hsep) as [y Hy].
    rewrite Hy. intros [= <-].
    assert (Hlen : length (drop (i + length sep) s) < n).
    { apply find_Some_occurs in F as [Hs _].
      apply (f_equal length) in Hs. rewrite !length_app in Hs.
      rewrite length_drop. destruct sep; [done|]. simpl in *. lia. }
    destruct (IH _ Hlen _ eq_refl y Hy) as [[a Ha] Hnone].
    split; [|done]. exists (take (i + length sep) s ++ a).
    by rewrite <- app_assoc, <- Ha, take_drop.
  - intros [= <-]. split; [by exists [] | done].
Qed.

Lemma lstrip_head p s c : head (lstrip p s) = Some c -> p c = false.
Proof.
  induction s as [|x s IH]; simpl; [done|].
  destruct (p x) eqn:Hx; [exact IH|]. simpl. by intros [= <-].
Qed.

Lemma last_rev_head (l : pystr) : last (rev l) = head l.
Proof. destruct l; [done|]. simpl. by rewrite last_snoc. Qed.

Lemma rstrip_last p s c : last (rstrip p s) = Some c -> p c = false.
Proof. unfold rstrip. rewrite last_rev_head. apply lstrip_head. Qed.

Lemma strip_head p s c : head (strip p s) = Some c -> p c = false.
Proof.
  unfold strip. destruct (rstrip_prefix p (lstrip p s)) as [y Hy].
  intros Hc. apply (lstrip_head p s). rewrite Hy.
  destruct (rstrip p (lstrip p s)); [done | exact Hc].
Qed.

Lemma strip_last p s c : last (strip p s) = Some c -> p c = false.
Proof. apply rstrip_last. Qed.

(** Characters of the stripped class around a string do not change what
    [strip] returns. *)
Lemma strip_padding p lead s trail :
  forallb p lead = true -> forallb p trail = true ->
  strip p (lead ++ s ++ trail) = strip p s.
Proof.
  intros Hlead Htrail. unfold strip.
  rewrite lstrip_all_app by done.
  destruct (has_other p s) eqn:Hs.
  - rewrite lstrip_app by done. by rewrite rstrip_all_app.
  - assert (Hall : forallb p s = true).
    { apply forallb_forall. intros c Hc.
      destruct (p c) eqn:Hpc; [done|].
      assert (has_other p s = true); [|congruence].
      apply existsb_exists. exists c. by rewrite Hpc. }
    rewrite lstrip_all_app by done.
    by rewrite (lstrip_all p s), (lstrip_all p trail).
Qed.

(** X1. For every input the extraction returns a location that holds no
    [" in "] and neither begins nor ends with [' '], ['?'] or ['.']. *)
Theorem extract_location_clean (s : pystr) :
  exists loc,
    extract_location s = Ok loc /\
    contains sep_in loc = false /\
    (forall c, head loc = Some c -> char_in strip_set c = false) /\
    (forall c, last loc = Some c -> char_in strip_set c = false).
Proof.
  destruct (extract_location_total s) as (seg & Hseg & Hloc).
  exists (strip (char_in strip_set) seg). split; [exact Hloc|].
  split; [|split].
  - apply split_last_suffix in Hseg as [_ Hnone]; [|done].
    destruct (contains sep_in _) eqn:Hc; [|done].
    apply contains_occurs in Hc.
    destruct (strip_infix (char_in strip_set) seg) as (x & y & Hxy).
    apply (occurs_infix _ x _ y) in Hc. rewrite <- Hxy in Hc.
    by apply find_None in Hnone.
  - apply strip_head.
  - apply strip_last.
Qed.

(** X2. The location is a contiguous part of the input: the extraction
    only removes text before and after it. *)
Theorem extract_location_infix (s : pystr) :
  exists loc a b, extract_location s = Ok loc /\ s = a ++ loc ++ b.
Proof.
  destruct (extract_location_total s) as (seg & Hseg & Hloc).
  apply split_last_suffix in Hseg as [[a Ha] _]; [|done].
  destruct (strip_infix isspace s) as (x & y & Hs).
  destruct (strip_infix (char_in strip_set) seg) as (x' & y' & Hseg').
  exists (strip (char_in strip_set) seg), (x ++ a ++ x'), (y' ++ y).
  split; [exact Hloc|].
  rewrite Hs at 1. rewrite Ha. rewrite Hseg' at 1.
  by rewrite <- !app_assoc.
Qed.

(** X3. White space around the input does not change the location. *)
Theorem extract_location_padding (lead s trail : pystr) :
  forallb isspace lead = true ->
  forallb isspace trail = true ->
  extract_location (lead ++ s ++ trail) = extract_location s.
Proof.
  intros Hlead Htrail. unfold extract_location.
  by rewrite strip_padding.
Qed.

End LocationFacts.

Lemma extract_location_padding_witness :
  let lead := [9; 32] in
  let trail := [32; 10] in
  forallb isspace lead = true /\
  forallb isspace trail = true /\
  extract_location (lead ++ lit "weather in Berlin." ++ trail)
    = extract_location (lit "weather in Berlin.") /\
  extract_location (lit "weather in Berlin.") = Ok (lit "Berlin").
Proof.
  intros lead trail. do 2 (split; [reflexivity|]). split; [|reflexivity].
  apply (extract_location_padding lead (lit "weather in Berlin.") trail);
    reflexivity.
Defined.

(** * More on get_weather *)

(** X5. Whatever the location, [get_weather] returns one of the three
    descriptions of the table or the fallback string. *)
Theorem get_weather_range (location : pystr) :
  get_weather location ∈ [partly_cloudy; sunny; rainy; not_available].
Proof.
  unfold get_weather.
  destruct (simulated_weather !! location) as [v|] eqn:Hv; simpl.
  - unfold simulated_weather in Hv.
    apply lookup_insert_Some in Hv as [[_ <-]|[_ Hv]]; [set_solver|].
    apply lookup_insert_Some in Hv as [[_ <-]|[_ Hv]]; [set_solver|].
    apply lookup_singleton_Some in Hv as [_ <-]. set_solver.
  - set_solver.
Qed.



(** * More on the registry *)

(** X7. [register_tool] touches at most the entry under the name of the
    function it is given and prints nothing: every other name looks up as
    before, whether the call returns or raises. *)
Theorem register_tool_frame (f : PyFunc) (w : World) (k : pystr) :
  fn_name f <> Some k ->
  tools (fst (register_tool f w)) !! k = tools w !! k /\
  stdout (fst (register_tool f w)) = stdout w.
Proof.
  intros Hk. destruct (fn_name f) as [n|] eqn:Hn.
  - rewrite (register_tool_named f n w Hn). simpl. split; [|done].
    apply lookup_insert_ne. congruence.
  - by rewrite (register_tool_unnamed f w Hn).
Qed.

Lemma register_tool_frame_witness :
  fn_name accepts_anything <> Some (lit "get_weather") /\
  tools (fst (register_tool accepts_anything notebook_agent)) !! lit "get_weather"
    = Some (tool_of (lit "get_weather") get_weather_fn).
Proof.
  assert (Hne : fn_name accepts_anything <> Some (lit "get_weather")) by done.
  split; [exact Hne|].
  destruct (register_tool_frame accepts_anything notebook_agent
              (lit "get_weather") Hne) as [-> _].
  reflexivity.
Defined.

(** X8. Registering a function and then running the tool found under its
    name, with keywords other than [self], is calling the function: the
    same value returned, the same exception raised. *)
Theorem register_then_run (f : PyFunc) (n : pystr) (w : World) (kw : kwargs) :
  fn_name f = Some n ->
  kw !! lit "self" = None ->
  exists t,
    tools (fst (register_tool f w)) !! n = Some t /\
    name t = n /\
    Tool_run t kw = fn_call f kw.
Proof.
  intros Hn Hself. exists (tool_of n f).
  rewrite (register_tool_named f n w Hn). simpl.
  rewrite lookup_insert_eq. split; [done|]. split; [done|].
  by apply Tool_run_result.
Qed.

Lemma register_then_run_witness :
  let kw : kwargs := {[ lit "location" := VStr (lit "Berlin") ]} in
  fn_name get_weather_fn = Some (lit "get_weather") /\
  kw !! lit "self" = None /\
  exists t,
    tools (fst (register_tool get_weather_fn (Agent_init []))) !! lit "get_weather"
      = Some t /\
    name t = lit "get_weather" /\
    Tool_run t kw = fn_call get_weather_fn kw.
Proof.
  intros kw. do 2 (split; [reflexivity|]).
  apply (register_then_run get_weather_fn (lit "get_weather") (Agent_init []) kw);
    reflexivity.
Defined.

(** X9. Registrations under different names commute: in either order both
    calls return and the agent ends with the same registry and output. *)
Theorem register_tool_commutes (f g : PyFunc) (n m : pystr) (w : World) :
  fn_name f = Some n ->
  fn_name g = Some m ->
  n <> m ->
  (register_tool f;; register_tool g) w = (register_tool g;; register_tool f) w /\
  snd ((register_tool f;; register_tool g) w) = Ok tt.
Proof.
  intros Hf Hg Hnm. unfold mbind, M_bind.
  rewrite (register_tool_named f n w Hf), (register_tool_named g m w Hg).
  rewrite (register_tool_named g m _ Hg), (register_tool_named f n _ Hf).
  simpl. split; [|done]. by rewrite insert_insert_ne.
Qed.

Lemma register_tool_commutes_witness :
  fn_name get_weather_fn = Some (lit "get_weather") /\
  fn_name accepts_anything = Some (lit "anything") /\
  lit "get_weather" <> lit "anything" /\
  (register_tool get_weather_fn;; register_tool accepts_anything) (Agent_init [])
    = (register_tool accepts_anything;; register_tool get_weather_fn) (Agent_init []).
Proof.
  do 2 (split; [reflexivity|]). split; [done|].
  apply (register_tool_commutes get_weather_fn accepts_anything
           (lit "get_weather") (lit "anything") (Agent_init [])); done.
Defined.

(** * More on Agent.run *)

Section MoreRunFacts.

Variable str_of_dict : kwargs -> pystr.

(** What [run] prints and returns depends on the registry through the
    entry under ["get_weather"] only. *)
Lemma run_same_entry (s : pystr) (w w' : World) :
  tools w !! lit "get_weather" = tools w' !! lit "get_weather" ->
  exists msgs r,
    run str_of_dict s w = (printed w msgs, r) /\
    run str_of_dict s w' = (printed w' msgs, r).
Proof.
  intros Heq. destruct (extract_location_total s) as (seg & _ & Hloc).
  rewrite (run_cases _ s _ w Hloc), (run_cases _ s _ w' Hloc), <- Heq.
  destruct (tools w !! lit "get_weather") as [t|];
    [destruct (Tool_run t _)|]; eexists _, _; split; reflexivity.
Qed.

(** The tool of [get_weather] on the keywords [run] passes. *)
Lemma get_weather_tool_run (loc : pystr) :
  Tool_run (tool_of (lit "get_weather") get_weather_fn)
           {[ lit "location" := VStr loc ]}
    = Ok (VStr (get_weather loc)).
Proof.
  apply Tool_run_result; [by apply lookup_singleton_ne|]. simpl.
  rewrite lookup_singleton_eq, map_size_singleton. by rewrite decide_True.
Qed.

(** X12. Once [get_weather] is registered, [run] fails on no input: it
    prints the five messages in order and returns, and the Observation and
    the Final Response carry what [get_weather] gives for the extracted
    location. *)
Theorem run_with_get_weather (s : pystr) (w0 : World) :
  let w := fst (register_tool get_weather_fn w0) in
  exists loc,
    extract_location s = Ok loc /\
    run str_of_dict s w
      = (printed w [thought_msg; action_msg str_of_dict (plan loc);
                    observation_msg (VStr (get_weather loc));
                    updated_thought_msg;
                    final_msg loc (VStr (get_weather loc))], Ok tt).
Proof.
  intros w. destruct (extract_location_total s) as (seg & _ & Hloc).
  eexists. split; [exact Hloc|].
  rewrite (run_cases _ s _ w Hloc). unfold w.
  rewrite (register_tool_named get_weather_fn (lit "get_weather") w0 eq_refl).
  cbn [fst tools]. rewrite lookup_insert_eq.
  by rewrite get_weather_tool_run.
Qed.

(** X4. An input of white space only, the empty input included, does not
    fail: the location is the empty string, and with [get_weather]
    registered the Final Response reports "Weather data not available.". *)
Theorem run_blank_input (s : pystr) (w0 : World) :
  forallb isspace s = true ->
  let w := fst (register_tool get_weather_fn w0) in
  extract_location s = Ok [] /\
  run str_of_dict s w
    = (printed w [thought_msg; action_msg str_of_dict (plan []);
                  observation_msg (VStr not_available);
                  updated_thought_msg;
                  final_msg [] (VStr not_available)], Ok tt).
Proof.
  intros Hs w.
  assert (Hloc : extract_location s = Ok []).
  { unfold extract_location, strip. by rewrite lstrip_all. }
  split; [exact Hloc|].
  rewrite (run_cases _ s _ w Hloc). unfold w.
  rewrite (register_tool_named get_weather_fn (lit "get_weather") w0 eq_refl).
  cbn [fst tools]. rewrite lookup_insert_eq.
  by rewrite get_weather_tool_run.
Qed.

(** X10. Tools registered under other names are never used: registering a
    function whose name is not ["get_weather"] changes neither what [run]
    prints nor how it ends. *)
Theorem run_ignores_other_tools (f : PyFunc) (s : pystr) (w : World) :
  fn_name f <> Some (lit "get_weather") ->
  let w' := fst (register_tool f w) in
  exists msgs r,
    run str_of_dict s w = (printed w msgs, r) /\
    run str_of_dict s w' = (printed w' msgs, r) /\
    stdout w' = stdout w.
Proof.
  intros Hf w'.
  assert (Hsame : tools w !! lit "get_weather" = tools w' !! lit "get_weather"
                  /\ stdout w' = stdout w).
  { unfold w'. destruct (fn_name f) as [n|] eqn:Hn.
    - rewrite (register_tool_named f n w Hn). simpl. split; [|done].
      symmetry. apply lookup_insert_ne. congruence.
    - by rewrite (register_tool_unnamed f w Hn). }
  destruct Hsame as [Hentry Hout].
  destruct (run_same_entry s w w' Hentry) as (msgs & r & H1 & H2).
  by exists msgs, r.
Qed.




End MoreRunFacts.

Lemma run_blank_input_witness :
  let s := [32; 9; 10] in
  forallb isspace s = true /\
  extract_location s = Ok [] /\
  final_response (stdout (fst (run plain_str_of_dict s notebook_agent)))
    = Some (final_msg [] (VStr not_available)).
Proof.
  intros s. split; [reflexivity|].
  destruct (run_blank_input plain_str_of_dict s (Agent_init []) eq_refl)
    as [Hloc Hrun].
  split; [exact Hloc|]. unfold notebook_agent. rewrite Hrun. reflexivity.
Defined.

Lemma run_ignores_other_tools_witness :
  fn_name accepts_anything <> Some (lit "get_weather") /\
  snd (run plain_str_of_dict notebook_input
         (fst (register_tool accepts_anything notebook_agent)))
    = snd (run plain_str_of_dict notebook_input notebook_agent).
Proof.
  assert (Hne : fn_name accepts_anything <> Some (lit "get_weather")) by done.
  split; [exact Hne|].
  destruct (run_ignores_other_tools plain_str_of_dict accepts_anything
              notebook_input notebook_agent Hne) as (msgs & r & -> & -> & _).
  reflexivity.
Defined.


